(** * velox/common/file/File.h: the simplified file interface

    A shallow embedding of the read and write file classes declared in
    [File.h]: the abstract bases [ReadFile] and [WriteFile] with their
    default method bodies, and the in-memory and local-disk classes.

    Conventions.
    - [uint64_t] is [N]; where the code adds two of them the wrap-around
      modulo 2^64 is written out with [wrap64].  [int64_t] arguments are [Z].
    - [std::string] and [std::string_view] are lists of bytes.
    - A method that may throw runs in the monad [M S A]: it takes the object
      state and gives back an [outcome] and the state the object is left in,
      also when it throws.
    - A virtual method that has a body in the base class is a definition
      of the module of the base class, polymorphic in the members of the
      derived class; a class that does not override it names that
      definition, a class that overrides it has its own.
    - The [filesystems::File::IoStats* stats] argument of the read calls is
      an external accumulator that is only written to; it is left out. *)

From Stdlib Require Import NArith ZArith Lia List String Strings.Byte.
From stdpp Require Import base list strings gmap.

Local Open Scope N_scope.

(** ** Machine integers and bytes *)

Definition uint64_t := N.
Definition int64_t := Z.

Definition wrap64 (n : N) : uint64_t := n mod 2 ^ 64.

(** The conversion of an [int64_t] to [uint64_t]. *)
Definition to_uint64 (z : int64_t) : uint64_t := Z.to_N (z mod 2 ^ 64).

Definition bytes := list byte.

(** The bytes of [s] in the half-open range [[offset, offset + len)]. *)
Definition substr (s : bytes) (offset len : N) : bytes :=
  take (N.to_nat len) (drop (N.to_nat offset) s).

(** ** Errors (velox/common/base/Exceptions.h) *)

Inductive ErrorKind := NotImplemented | OutOfRange | IoError | AlreadyExists.

(** What a C++ [throw] can raise.  Everything the Velox macros raise is a
    [VeloxException], a class derived from [std::exception]; the standard
    library raises other classes derived from it; [Foreign] stands for an
    object of a type that does not derive from [std::exception]. *)
Inductive exception :=
| VeloxException (kind : ErrorKind) (message : string)
| StdException (what : string)
| Foreign (descr : string).

(** Whether a handler [catch (const std::exception& e)] matches. *)
Definition is_std_exception (e : exception) : bool :=
  match e with
  | VeloxException _ _ | StdException _ => true
  | Foreign _ => false
  end.

Inductive outcome (A : Type) :=
| Returned (a : A)
| Threw (e : exception).
Arguments Returned {A} a.
Arguments Threw {A} e.

Definition M (S A : Type) : Type := S -> outcome A * S.

Definition ret {S A} (a : A) : M S A := fun s => (Returned a, s).

Definition throw {S A} (e : exception) : M S A := fun s => (Threw e, s).

Definition bind {S A B} (m : M S A) (k : A -> M S B) : M S B :=
  fun s =>
    match m s with
    | (Returned a, s') => k a s'
    | (Threw e, s') => (Threw e, s')
    end.

Declare Scope cpp_scope.
Delimit Scope cpp_scope with cpp.
Notation "x <- m ;; k" := (bind m (fun x => k))
  (at level 100, m at next level, right associativity) : cpp_scope.
Notation "m ;;; k" := (bind m (fun _ => k))
  (at level 100, right associativity) : cpp_scope.
Local Open Scope cpp_scope.

(** Modelled from the spec: the macro [VELOX_NYI] of Exceptions.h, which is
    not in File.h.  It is the hard failure "not implemented": it raises a
    Velox error of kind [NotImplemented] that carries the formatted
    message. *)
Definition VELOX_NYI {S A} (message : string) : M S A :=
  throw (VeloxException NotImplemented message).

(** A method that is a hard failure and no silent no-op: on every object
    it raises [NotImplemented] with [message] and leaves the object as it
    was. *)
Definition not_implemented {S A} (m : M S A) (message : string) : Prop :=
  forall self, m self = (Threw (VeloxException NotImplemented message), self).

(** ["{} is not implemented"] formatted with [__FUNCTION__]. *)
Definition nyi_message (function : string) : string :=
  (function ++ " is not implemented")%string.

(** ** folly::SemiFuture, as far as File.h uses it *)

(** [folly::exception_wrapper]: what [folly::makeSemiFuture<T>(e)] builds
    from the caught reference [e].  folly is outside this repository, the
    constructor is left uninterpreted. *)
Inductive exception_wrapper :=
| make_exception_wrapper (e : exception).

Inductive SemiFuture (A : Type) :=
| Ready (value : A)
| Failed (ew : exception_wrapper).
Arguments Ready {A} value.
Arguments Failed {A} ew.

Definition makeSemiFuture {A} (e : exception) : SemiFuture A :=
  Failed (make_exception_wrapper e).

(** ** common::Region (velox/common/file/Region.h) *)

Module Region.
Record t := mk { offset : uint64_t; length : uint64_t }.
End Region.

(** [folly::Range<char*>]: destination memory of [size] bytes, or a null
    [data] pointer with a size (bytes to skip). *)
Inductive Range :=
| Mem (contents : bytes)
| Null (size : uint64_t).

Definition range_size (r : Range) : uint64_t :=
  match r with
  | Mem c => N.of_nat (List.length c)
  | Null n => n
  end.

(** [folly::IOBuf], as the batch read uses it: an owned byte buffer. *)
Definition IOBuf := bytes.

(** The number of bytes a list of destinations, or of regions, asks for. *)
Definition sum_sizes (buffers : list Range) : N :=
  fold_right (fun r acc => range_size r + acc) 0 buffers.

Definition sum_lengths (regions : list Region.t) : N :=
  fold_right (fun r acc => Region.length r + acc) 0 regions.

(** The lengths of the regions that a visit in the order [order] asks for. *)
Definition visit_requested (order : list nat) (regions : list Region.t) : N :=
  fold_right
    (fun i acc => match regions !! i with
                  | Some r => Region.length r + acc
                  | None => acc
                  end) 0 order.

(** A region that lies inside a file, and the bytes of the file there. *)
Definition in_file (file : bytes) (r : Region.t) : Prop :=
  Region.offset r + Region.length r <= N.of_nat (List.length file).

Definition region_bytes (file : bytes) (r : Region.t) : bytes :=
  substr file (Region.offset r) (Region.length r).

(** What [pread] leaves behind: the caller's buffer after the call and the
    [std::string_view] it returns, which points at the start of that buffer. *)
Record filled := { buf : bytes; view_size : uint64_t }.

Definition view_bytes (r : filled) : bytes :=
  take (N.to_nat (view_size r)) (buf r).

(** [memcpy(buf, src, n)] on a destination that holds [dst]. *)
Definition memcpy (dst src : bytes) : bytes :=
  src ++ drop (List.length src) dst.

(** ** class ReadFile *)

Module ReadFile.

(** The base-class part of every read file object. *)
Record base := { bytesRead_ : uint64_t }.

Definition init : base := {| bytesRead_ := 0 |}.

Definition bytesRead (b : base) : uint64_t := bytesRead_ b.

Definition resetBytesRead (b : base) : base := {| bytesRead_ := 0 |}.

(** [bytesRead_ += length] on the 64-bit counter. *)
Definition addBytesRead (length : uint64_t) (b : base) : base :=
  {| bytesRead_ := wrap64 (bytesRead_ b + length) |}.

Definition hasPreadvAsync {T} (self : T) : bool := false.

Section Defaults.
Context {T : Type}.

(** The pure virtual [pread(offset, length, buf, stats)]. *)
Variable pread : uint64_t -> uint64_t -> bytes -> M T filled.

(** Modelled from the spec: [pread(offset, length, stats)] of File.cpp,
    the allocating variant.  It allocates a buffer sized to [length]
    and delegates to the buffer-based primitive. *)
Definition pread_owned (offset length : uint64_t) : M T bytes :=
  r <- pread offset length (replicate (N.to_nat length) x00) ;;
  ret (view_bytes r).

(** Scatter one contiguous source over the destinations, left to
    right; a null destination consumes its size without copying. *)
Fixpoint scatter (src : bytes) (buffers : list Range) : list Range :=
  match buffers with
  | [] => []
  | Mem c :: rest =>
      Mem (memcpy c (take (List.length c) src))
        :: scatter (drop (List.length c) src) rest
  | Null n :: rest => Null n :: scatter (drop (N.to_nat n) src) rest
  end.

Definition total_size (buffers : list Range) : uint64_t :=
  fold_left (fun acc r => wrap64 (acc + range_size r)) buffers 0.

(** Modelled from the spec: [preadv(offset, buffers, stats)] of
    File.cpp.  One contiguous read into a temporary buffer sized to the
    sum of the buffer lengths, then a scatter into the destinations.
    The result pairs the destinations after the call with the returned
    count. *)
Definition preadv (offset : uint64_t) (buffers : list Range)
  : M T (list Range * uint64_t) :=
  let total := total_size buffers in
  tmp <- pread_owned offset total ;;
  ret (scatter tmp buffers, total).

(** Modelled from the spec: [preadv(regions, iobufs, stats)] of
    File.cpp, the batch form.  It decomposes into single reads, one per
    region; the read of region [i] is stored in [iobufs[i]].  [order] is
    the order in which the indices are visited; the default visits
    [0 .. regions.size() - 1] in turn.  The caller sizes [iobufs] like
    [regions]: an index past the end of [regions] is passed over, and a
    store past the end of [iobufs] stores nothing. *)
Fixpoint preadv_visit (order : list nat) (regions : list Region.t)
    (iobufs : list IOBuf) (total : uint64_t)
  : M T (list IOBuf * uint64_t) :=
  match order with
  | [] => ret (iobufs, total)
  | i :: rest =>
      match regions !! i with
      | None => preadv_visit rest regions iobufs total
      | Some region =>
          data <- pread_owned (Region.offset region) (Region.length region) ;;
          preadv_visit rest regions (<[i := data]> iobufs)
            (wrap64 (total + Region.length region))
      end
  end.

Definition preadv_regions (regions : list Region.t) (iobufs : list IOBuf)
  : M T (list IOBuf * uint64_t) :=
  preadv_visit (seq 0 (List.length regions)) regions iobufs 0.

End Defaults.

Section Async.
Context {T A : Type}.

(** The virtual [preadv(offset, buffers, stats)] the call dispatches
    to: the default above or a backend's override. *)
Variable preadv : uint64_t -> list Range -> M T A.

(** [preadvAsync], File.h lines 114-123: the [try] block wraps the
    value in a ready future, the handler for [const std::exception&]
    makes a failed future; any other thrown object leaves the call. *)
Definition preadvAsync (offset : uint64_t) (buffers : list Range)
  : M T (SemiFuture A) :=
  fun self =>
    match preadv offset buffers self with
    | (Returned n, self') => (Returned (Ready n), self')
    | (Threw e, self') =>
        if is_std_exception e
        then (Returned (makeSemiFuture e), self')
        else (Threw e, self')
    end.
End Async.

End ReadFile.

(** ** class InMemoryReadFile *)

Module InMemoryReadFile.

Record t := {
  base : ReadFile.base;
  ownedFile_ : bytes;
  file_ : bytes;
  shouldCoalesce_ : bool
}.

(** [explicit InMemoryReadFile(std::string_view file) : file_(file)] *)
Definition make_view (file : bytes) : t :=
  {| base := ReadFile.init; ownedFile_ := []; file_ := file;
     shouldCoalesce_ := false |}.

(** [explicit InMemoryReadFile(std::string file)
      : ownedFile_(std::move(file)), file_(ownedFile_)] *)
Definition make (file : bytes) : t :=
  {| base := ReadFile.init; ownedFile_ := file; file_ := file;
     shouldCoalesce_ := false |}.

Definition size (self : t) : uint64_t := N.of_nat (List.length (file_ self)).

Definition memoryUsage (self : t) : uint64_t := size self.

Definition setShouldCoalesce (shouldCoalesce : bool) (self : t) : t :=
  {| base := base self; ownedFile_ := ownedFile_ self; file_ := file_ self;
     shouldCoalesce_ := shouldCoalesce |}.

Definition shouldCoalesce (self : t) : bool := shouldCoalesce_ self.

Definition getName (self : t) : string := "<InMemoryReadFile>".

Definition getNaturalReadSize (self : t) : uint64_t := 1024.

Definition with_base (b : ReadFile.base) (self : t) : t :=
  {| base := b; ownedFile_ := ownedFile_ self; file_ := file_ self;
     shouldCoalesce_ := shouldCoalesce_ self |}.

(** Inherited from [ReadFile]. *)
Definition bytesRead (self : t) : uint64_t := ReadFile.bytesRead (base self).

Definition resetBytesRead (self : t) : t :=
  with_base (ReadFile.resetBytesRead (base self)) self.

Definition hasPreadvAsync (self : t) : bool := ReadFile.hasPreadvAsync self.

(** Modelled from the spec: the body of
    [InMemoryReadFile::pread(offset, length, buf, stats)], which is in
    File.cpp.  The requested length is added to the counter of the base
    class (requested, not delivered, bytes); the call fails with
    [OutOfRange] when [offset + length] exceeds the file size, the sum
    taken as a number and not modulo 2^64; otherwise the bytes are
    copied to [buf] and the view covers the [length] bytes written. *)
Definition pread (offset length : uint64_t) (buf : bytes) : M t filled :=
  fun self =>
    let self' := with_base (ReadFile.addBytesRead length (base self)) self in
    if size self <? offset + length
    then (Threw (VeloxException OutOfRange "read past the end of the file"), self')
    else (Returned {| buf := memcpy buf (substr (file_ self) offset length);
                      view_size := length |}, self').

(** Modelled from the spec: the override
    [InMemoryReadFile::pread(offset, length, stats)] of File.cpp; the spec
    gives the allocating variant one behaviour, a buffer sized to
    [length] handed to the buffer-based primitive. *)
Definition pread_owned : uint64_t -> uint64_t -> M t bytes :=
  ReadFile.pread_owned pread.

(** Inherited from [ReadFile]. *)
Definition preadv : uint64_t -> list Range -> M t (list Range * uint64_t) :=
  ReadFile.preadv pread.

Definition preadv_regions
  : list Region.t -> list IOBuf -> M t (list IOBuf * uint64_t) :=
  ReadFile.preadv_regions pread.

Definition preadvAsync
  : uint64_t -> list Range -> M t (SemiFuture (list Range * uint64_t)) :=
  ReadFile.preadvAsync preadv.

(** [s'] is [s] up to the members of the base class. *)
Definition same_file (s s' : t) : Prop :=
  ownedFile_ s' = ownedFile_ s /\ file_ s' = file_ s /\
  shouldCoalesce_ s' = shouldCoalesce_ s.

(** The calls that a holder of the object can make and that may change
    it (the remaining methods are [const] and touch no member). *)
Inductive call :=
| Pread (offset length : uint64_t) (buf : bytes)
| PreadOwned (offset length : uint64_t)
| Preadv (offset : uint64_t) (buffers : list Range)
| PreadvRegions (regions : list Region.t) (iobufs : list IOBuf)
| PreadvAsync (offset : uint64_t) (buffers : list Range)
| SetShouldCoalesce (shouldCoalesce : bool)
| ResetBytesRead.

Definition forget {S A} (m : M S A) : M S unit := x <- m ;; ret tt.

Definition exec (c : call) : M t unit :=
  match c with
  | Pread offset length buf => forget (pread offset length buf)
  | PreadOwned offset length => forget (pread_owned offset length)
  | Preadv offset buffers => forget (preadv offset buffers)
  | PreadvRegions regions iobufs => forget (preadv_regions regions iobufs)
  | PreadvAsync offset buffers => forget (preadvAsync offset buffers)
  | SetShouldCoalesce b => fun self => (Returned tt, setShouldCoalesce b self)
  | ResetBytesRead => fun self => (Returned tt, resetBytesRead self)
  end.

(** The object after a sequence of calls; a call that throws leaves the
    object as it was when the error was raised, and the holder goes on. *)
Definition run (cs : list call) (self : t) : t :=
  fold_left (fun f c => snd (exec c f)) cs self.

Definition is_read (c : call) : bool :=
  match c with
  | SetShouldCoalesce _ | ResetBytesRead => false
  | _ => true
  end.

(** The number of bytes a read call asks for. *)
Definition requested (c : call) : N :=
  match c with
  | Pread _ length _ | PreadOwned _ length => length
  | Preadv _ buffers | PreadvAsync _ buffers => sum_sizes buffers
  | PreadvRegions regions _ => sum_lengths regions
  | SetShouldCoalesce _ | ResetBytesRead => 0
  end.

Definition total_requested (cs : list call) : N :=
  fold_right (fun c acc => requested c + acc) 0 cs.

(** The argument of the last [setShouldCoalesce] of a call sequence,
    [dflt] when there is none. *)
Definition last_setting (dflt : bool) (cs : list call) : bool :=
  fold_left
    (fun acc c => match c with SetShouldCoalesce b => b | _ => acc end)
    cs dflt.

End InMemoryReadFile.

(** ** class LocalReadFile *)

Module LocalReadFile.

(** A [folly::Executor*]: [None] is [nullptr], [Some a] a pointer to the
    executor at address [a]. *)
Definition Executor_ptr := option N.

Record t := {
  base : ReadFile.base;
  executor_ : Executor_ptr;
  path_ : string;
  fd_ : Z;
  size_ : Z
}.

(** Modelled from the spec: the member initialisation of the constructor
    [LocalReadFile(path, executor, bufferIo)], whose body is in File.cpp.
    [executor_] is a [const] member, set from the argument [executor];
    [fd] and [size] are what opening the file gives. *)
Definition make (path : string) (executor : Executor_ptr) (bufferIo : bool)
    (fd size : Z) : t :=
  {| base := ReadFile.init; executor_ := executor; path_ := path;
     fd_ := fd; size_ := size |}.

(** Modelled from the spec: the same for [LocalReadFile(fd, executor)]. *)
Definition make_fd (fd : Z) (executor : Executor_ptr) (size : Z) : t :=
  {| base := ReadFile.init; executor_ := executor; path_ := EmptyString;
     fd_ := fd; size_ := size |}.

Definition hasPreadvAsync (self : t) : bool :=
  match executor_ self with
  | Some _ => true
  | None => false
  end.

Definition shouldCoalesce (self : t) : bool := false.

Definition getName (self : t) : string :=
  if decide (path_ self = EmptyString) then "<LocalReadFile>" else path_ self.

Definition getNaturalReadSize (self : t) : uint64_t := N.shiftl 10 20.

(** *** The reads of a local file (bodies in File.cpp) *)

(** What the operating system answers for the open file: the bytes it
    holds, and for which ranges the system call behind a read fails. *)
Record system := {
  disk : bytes;
  read_fails : uint64_t -> uint64_t -> bool
}.

(** The underlying read of [[offset, offset + length)] delivers: the system
    call does not fail and the file holds all the bytes asked for. *)
Definition delivers (os : system) (offset length : uint64_t) : bool :=
  negb (read_fails os offset length)
  && (offset + length <=? N.of_nat (List.length (disk os))).

Definition with_base (b : ReadFile.base) (self : t) : t :=
  {| base := b; executor_ := executor_ self; path_ := path_ self;
     fd_ := fd_ self; size_ := size_ self |}.

(** Inherited from [ReadFile]. *)
Definition bytesRead (self : t) : uint64_t := ReadFile.bytesRead (base self).

Definition resetBytesRead (self : t) : t :=
  with_base (ReadFile.resetBytesRead (base self)) self.

(** Modelled from the spec: [LocalReadFile::size()] of File.cpp, the number
    of bytes in the file, which the object keeps in [size_]. *)
Definition size (self : t) : uint64_t := to_uint64 (size_ self).

(** Modelled from the spec: the body of
    [LocalReadFile::pread(offset, length, buf, stats)], which is in
    File.cpp.  The requested length is added to the counter; the call
    fails with [OutOfRange] when [offset + length] exceeds the file size,
    and with [IoError] when the underlying read fails; otherwise the bytes
    are copied to [buf] and the view covers the [length] bytes written. *)
Definition pread (os : system) (offset length : uint64_t) (buf : bytes)
  : M t filled :=
  fun self =>
    let self' := with_base (ReadFile.addBytesRead length (base self)) self in
    if size self <? offset + length
    then (Threw (VeloxException OutOfRange "read past the end of the file"), self')
    else if delivers os offset length
    then (Returned {| buf := memcpy buf (substr (disk os) offset length);
                      view_size := length |}, self')
    else (Threw (VeloxException IoError "pread failed"), self').

(** Not declared in the class: inherited from [ReadFile]. *)
Definition pread_owned (os : system) : uint64_t -> uint64_t -> M t bytes :=
  ReadFile.pread_owned (pread os).

Definition preadv_regions (os : system)
  : list Region.t -> list IOBuf -> M t (list IOBuf * uint64_t) :=
  ReadFile.preadv_regions (pread os).

(** The destinations after the bytes of [file] from [pos] on were read
    straight into them, left to right; a null destination is passed
    over. *)
Fixpoint read_direct (file : bytes) (pos : N) (buffers : list Range) : list Range :=
  match buffers with
  | [] => []
  | Mem c :: rest =>
      Mem (memcpy c (substr file pos (N.of_nat (List.length c))))
        :: read_direct file (pos + N.of_nat (List.length c)) rest
  | Null n :: rest => Null n :: read_direct file (pos + n) rest
  end.

(** Modelled from the spec: the override
    [LocalReadFile::preadv(offset, buffers, stats)] of File.cpp, which
    reads into each destination without the intermediate copy, with one
    vectored system call for the whole range. *)
Definition preadv (os : system) (offset : uint64_t) (buffers : list Range)
  : M t (list Range * uint64_t) :=
  fun self =>
    let total := ReadFile.total_size buffers in
    let self' := with_base (ReadFile.addBytesRead total (base self)) self in
    if size self <? offset + total
    then (Threw (VeloxException OutOfRange "read past the end of the file"), self')
    else if delivers os offset total
    then (Returned (read_direct (disk os) offset buffers, total), self')
    else (Threw (VeloxException IoError "preadv failed"), self').

(** Modelled from the spec: the override [LocalReadFile::preadvAsync] of
    File.cpp.  With an executor the read is submitted to it and the future
    resolves when the executor completes the read, an error making a
    failed future; the future is given as it is once resolved.  Without an
    executor the read is the synchronous one of the base class. *)
Definition preadvAsync (os : system) (offset : uint64_t) (buffers : list Range)
  : M t (SemiFuture (list Range * uint64_t)) :=
  fun self =>
    match executor_ self with
    | None => ReadFile.preadvAsync (preadv os) offset buffers self
    | Some _ =>
        match preadv os offset buffers self with
        | (Returned r, self') => (Returned (Ready r), self')
        | (Threw e, self') => (Returned (makeSemiFuture e), self')
        end
    end.

End LocalReadFile.

(** ** Any read file *)

(** The read files of File.h as one type: the class of an object selects
    the body that a virtual call runs.  A local file comes with what the
    operating system answers for it. *)
Module AnyReadFile.

Inductive t :=
| InMemory (f : InMemoryReadFile.t)
| Local (os : LocalReadFile.system) (f : LocalReadFile.t).

(** Virtual dispatch of a method that may throw. *)
Definition dispatch {A}
    (in_memory : M InMemoryReadFile.t A)
    (local : LocalReadFile.system -> M LocalReadFile.t A) : M t A :=
  fun self =>
    match self with
    | InMemory f => let (r, f') := in_memory f in (r, InMemory f')
    | Local os f => let (r, f') := local os f in (r, Local os f')
    end.

Definition size (self : t) : uint64_t :=
  match self with
  | InMemory f => InMemoryReadFile.size f
  | Local _ f => LocalReadFile.size f
  end.

Definition bytesRead (self : t) : uint64_t :=
  match self with
  | InMemory f => InMemoryReadFile.bytesRead f
  | Local _ f => LocalReadFile.bytesRead f
  end.

Definition resetBytesRead (self : t) : t :=
  match self with
  | InMemory f => InMemory (InMemoryReadFile.resetBytesRead f)
  | Local os f => Local os (LocalReadFile.resetBytesRead f)
  end.

(** The bytes of the file behind the object. *)
Definition content (self : t) : bytes :=
  match self with
  | InMemory f => InMemoryReadFile.file_ f
  | Local os _ => LocalReadFile.disk os
  end.

(** Whether the underlying read of a range delivers; a read from memory
    always does. *)
Definition delivers (self : t) (offset length : uint64_t) : bool :=
  match self with
  | InMemory _ => true
  | Local os _ => LocalReadFile.delivers os offset length
  end.

Definition pread (offset length : uint64_t) (buf : bytes) : M t filled :=
  dispatch (InMemoryReadFile.pread offset length buf)
           (fun os => LocalReadFile.pread os offset length buf).

Definition pread_owned (offset length : uint64_t) : M t bytes :=
  dispatch (InMemoryReadFile.pread_owned offset length)
           (fun os => LocalReadFile.pread_owned os offset length).

Definition preadv (offset : uint64_t) (buffers : list Range)
  : M t (list Range * uint64_t) :=
  dispatch (InMemoryReadFile.preadv offset buffers)
           (fun os => LocalReadFile.preadv os offset buffers).

Definition preadv_regions (regions : list Region.t) (iobufs : list IOBuf)
  : M t (list IOBuf * uint64_t) :=
  dispatch (InMemoryReadFile.preadv_regions regions iobufs)
           (fun os => LocalReadFile.preadv_regions os regions iobufs).

Definition preadvAsync (offset : uint64_t) (buffers : list Range)
  : M t (SemiFuture (list Range * uint64_t)) :=
  dispatch (InMemoryReadFile.preadvAsync offset buffers)
           (fun os => LocalReadFile.preadvAsync os offset buffers).

(** The read calls of the interface. *)
Inductive call :=
| Pread (offset length : uint64_t) (buf : bytes)
| PreadOwned (offset length : uint64_t)
| Preadv (offset : uint64_t) (buffers : list Range)
| PreadvRegions (regions : list Region.t) (iobufs : list IOBuf)
| PreadvAsync (offset : uint64_t) (buffers : list Range).

Definition forget {S A} (m : M S A) : M S unit := x <- m ;; ret tt.

Definition exec (c : call) : M t unit :=
  match c with
  | Pread offset length buf => forget (pread offset length buf)
  | PreadOwned offset length => forget (pread_owned offset length)
  | Preadv offset buffers => forget (preadv offset buffers)
  | PreadvRegions regions iobufs => forget (preadv_regions regions iobufs)
  | PreadvAsync offset buffers => forget (preadvAsync offset buffers)
  end.

(** The object after a sequence of read calls; a call that throws leaves
    the object as it was when the error was raised. *)
Definition run (cs : list call) (self : t) : t :=
  fold_left (fun f c => snd (exec c f)) cs self.


(** The number of bytes a read call asks for. *)
Definition requested (c : call) : N :=
  match c with
  | Pread _ length _ | PreadOwned _ length => length
  | Preadv _ buffers | PreadvAsync _ buffers => sum_sizes buffers
  | PreadvRegions regions _ => sum_lengths regions
  end.

Definition total_requested (cs : list call) : N :=
  fold_right (fun c acc => requested c + acc) 0 cs.

End AnyReadFile.

(** ** class WriteFile *)

(** [struct iovec]: the bytes one element of a positional write points at. *)
Definition iovec := bytes.

Definition attribute_map := gmap string string.

Module WriteFile.

(** The bodies that the base class gives to its optional operations; a
    class that does not override one of them runs the body here, whatever
    the members [S] of the class are. *)
Section Defaults.
Context {S : Type}.

Definition append_iobuf (data : IOBuf) : M S unit :=
  VELOX_NYI "IOBuf appending is not implemented".

Definition write (iovecs : list iovec) (offset length : int64_t) : M S unit :=
  VELOX_NYI (nyi_message "write").

Definition truncate (newSize : int64_t) : M S unit :=
  VELOX_NYI (nyi_message "truncate").

Definition setAttributes (attributes : attribute_map) : M S unit :=
  VELOX_NYI (nyi_message "setAttributes").

Definition getAttributes : M S attribute_map :=
  VELOX_NYI (nyi_message "getAttributes").

Definition getName : M S string :=
  VELOX_NYI (nyi_message "getName").
End Defaults.

End WriteFile.

(** ** class InMemoryWriteFile *)

Module InMemoryWriteFile.

(** [file_] is a pointer to a string that the caller owns; the state kept
    here is that string. *)
Record t := { file_ : bytes }.

(** [explicit InMemoryWriteFile(std::string* file) : file_(file)] *)
Definition make (file : bytes) : t := {| file_ := file |}.

(** Modelled from the spec: [append(std::string_view)] of File.cpp; the
    backing byte sequence is grown by the appended bytes. *)
Definition append (data : bytes) : M t unit :=
  fun self => (Returned tt, {| file_ := file_ self ++ data |}).

(** Modelled from the spec: [append(std::unique_ptr<folly::IOBuf>)] of
    File.cpp, which the class overrides: the bytes of the buffer are
    appended. *)
Definition append_iobuf (data : IOBuf) : M t unit :=
  fun self => (Returned tt, {| file_ := file_ self ++ data |}).

(** [void flush() final {}] and [void close() final {}] *)
Definition flush : M t unit := ret tt.
Definition close : M t unit := ret tt.

(** Modelled from the spec: [size()] of File.cpp, the number of bytes a
    read of the file observes, which is the length of the backing
    sequence. *)
Definition size (self : t) : uint64_t := N.of_nat (List.length (file_ self)).

(** Not declared in the class: inherited from [WriteFile]. *)
Definition write : list iovec -> int64_t -> int64_t -> M t unit := WriteFile.write.
Definition truncate : int64_t -> M t unit := WriteFile.truncate.
Definition setAttributes : attribute_map -> M t unit := WriteFile.setAttributes.
Definition getAttributes : M t attribute_map := WriteFile.getAttributes.
Definition getName : M t string := WriteFile.getName.

(** The calls made on a file before it is closed. *)
Inductive call :=
| Append (data : bytes)
| AppendIOBuf (data : IOBuf)
| Write (iovecs : list iovec) (offset length : int64_t)
| Truncate (newSize : int64_t)
| Flush.

Definition exec (c : call) : M t unit :=
  match c with
  | Append data => append data
  | AppendIOBuf data => append_iobuf data
  | Write iovecs offset length => write iovecs offset length
  | Truncate newSize => truncate newSize
  | Flush => flush
  end.

Definition run (cs : list call) (self : t) : t :=
  fold_left (fun f c => snd (exec c f)) cs self.

(** The number of bytes a call appends. *)
Definition appended (c : call) : N :=
  match c with
  | Append data | AppendIOBuf data => N.of_nat (List.length data)
  | _ => 0
  end.

End InMemoryWriteFile.

(** ** class LocalWriteFile *)

Module LocalWriteFile.

Module Attributes.
Definition kNoCow : string := "write-on-copy-disabled".
Definition kDefaultNoCow : bool := false.
End Attributes.

Record t := {
  fd_ : Z;
  path_ : string;
  size_ : uint64_t;
  attributes_ : attribute_map;
  closed_ : bool
}.

(** The default member initialisers of the class. *)
Definition init : t :=
  {| fd_ := -1; path_ := EmptyString; size_ := 0; attributes_ := ∅; closed_ := false |}.

Definition size (self : t) : uint64_t := size_ self.

Definition getName : M t string :=
  fun self => (Returned (path_ self), self).

Definition with_size (n : uint64_t) (self : t) : t :=
  {| fd_ := fd_ self; path_ := path_ self; size_ := n;
     attributes_ := attributes_ self; closed_ := closed_ self |}.

Definition io_error {A} (what : string) : M t A :=
  throw (VeloxException IoError what).

Section Bodies.

(** The size a successful positional write leaves in [size_], from the
    size before it, the offset and the length.  File.cpp sets it and
    the spec does not say to what. *)
Variable size_after_write : uint64_t -> int64_t -> int64_t -> uint64_t.

(** Modelled from the spec: the bodies below are in File.cpp.  Each one
    issues a system call; [sys_ok] says whether that call succeeds.  A
    failure is raised as [IoError] and leaves the members alone; the
    logical size is updated on every successful append, write and
    truncate, independently of the file system. *)
Definition append (data : bytes) (sys_ok : bool) : M t unit :=
  fun self =>
    if sys_ok
    then (Returned tt,
          with_size (wrap64 (size_ self + N.of_nat (List.length data))) self)
    else io_error "write failed" self.

Definition append_iobuf (data : IOBuf) (sys_ok : bool) : M t unit :=
  append data sys_ok.

Definition write (iovecs : list iovec) (offset length : int64_t)
    (sys_ok : bool) : M t unit :=
  fun self =>
    if sys_ok
    then (Returned tt,
          with_size (size_after_write (size_ self) offset length) self)
    else io_error "pwritev failed" self.

Definition truncate (newSize : int64_t) (sys_ok : bool) : M t unit :=
  fun self =>
    if sys_ok
    then (Returned tt, with_size (to_uint64 newSize) self)
    else io_error "ftruncate failed" self.

Definition flush (sys_ok : bool) : M t unit :=
  if sys_ok then ret tt else io_error "fsync failed".

Definition setAttributes (attributes : attribute_map) (sys_ok : bool)
  : M t unit :=
  fun self =>
    if sys_ok
    then (Returned tt,
          {| fd_ := fd_ self; path_ := path_ self; size_ := size_ self;
             attributes_ := attributes; closed_ := closed_ self |})
    else io_error "ioctl failed" self.

Definition getAttributes : M t attribute_map :=
  fun self => (Returned (attributes_ self), self).

(** [close] releases the handle and records it in [closed_]. *)
Definition close (sys_ok : bool) : M t unit :=
  fun self =>
    if sys_ok
    then (Returned tt,
          {| fd_ := fd_ self; path_ := path_ self; size_ := size_ self;
             attributes_ := attributes_ self; closed_ := true |})
    else io_error "close failed" self.

(** The calls made on a file before it is closed, each with the
    outcome of its system call. *)
Inductive call :=
| Append (data : bytes) (sys_ok : bool)
| AppendIOBuf (data : IOBuf) (sys_ok : bool)
| Write (iovecs : list iovec) (offset length : int64_t) (sys_ok : bool)
| Truncate (newSize : int64_t) (sys_ok : bool)
| Flush (sys_ok : bool)
| SetAttributes (attributes : attribute_map) (sys_ok : bool)
| GetAttributes.

Definition forget {A} (m : M t A) : M t unit := x <- m ;; ret tt.

Definition exec (c : call) : M t unit :=
  match c with
  | Append data ok => append data ok
  | AppendIOBuf data ok => append_iobuf data ok
  | Write iovecs offset length ok => write iovecs offset length ok
  | Truncate newSize ok => truncate newSize ok
  | Flush ok => flush ok
  | SetAttributes attributes ok => setAttributes attributes ok
  | GetAttributes => forget getAttributes
  end.

Definition run (cs : list call) (self : t) : t :=
  fold_left (fun f c => snd (exec c f)) cs self.

(** The logical size in the words of the spec: the sum of the appended
    bytes, or the size set by the last truncate or positional write
    and what was appended since; a call that failed counts for
    nothing. *)
Definition logical_step (size : uint64_t) (c : call) : uint64_t :=
  match c with
  | Append data true | AppendIOBuf data true =>
      wrap64 (size + N.of_nat (List.length data))
  | Write _ offset length true => size_after_write size offset length
  | Truncate newSize true => to_uint64 newSize
  | _ => size
  end.

Definition logical_size (size0 : uint64_t) (cs : list call) : uint64_t :=
  fold_left logical_step cs size0.

End Bodies.

End LocalWriteFile.

(** ** Sample inputs *)

(** The file of the scenarios of the spec. *)
Definition hello_world : bytes := list_byte_of_string "hello world".




(** A [preadv] override that throws an object whose type does not derive
    from [std::exception], as [throw 42;] does. *)
Definition preadv_throwing_int : uint64_t -> list Range -> M unit uint64_t :=
  fun _ _ => throw (Foreign "int").

(** ** Reference functions for the further properties *)

(** What the comment on [preadv(offset, buffers)] (File.h lines 74-76)
    says the destinations hold after the call: they are filled left to
    right with the bytes of the file from [pos] on, and a destination with
    null data has its size worth of bytes skipped. *)
Fixpoint fill_from (file : bytes) (pos : N) (buffers : list Range) : list Range :=
  match buffers with
  | [] => []
  | Mem c :: rest =>
      Mem (substr file pos (N.of_nat (List.length c)))
        :: fill_from file (pos + N.of_nat (List.length c)) rest
  | Null n :: rest => Null n :: fill_from file (pos + n) rest
  end.

(** The counter after [bytesRead_ += length] for each length of a list,
    in the order of the list. *)
Definition count_reads (lengths : list uint64_t) (b : ReadFile.base) : ReadFile.base :=
  fold_left (fun b length => ReadFile.addBytesRead length b) lengths b.

Definition sum_N (lengths : list N) : N := fold_right N.add 0 lengths.

(** An in-memory read file with [owned] in the place of its [ownedFile_]. *)
Definition with_owned (owned : bytes) (self : InMemoryReadFile.t)
  : InMemoryReadFile.t :=
  {| InMemoryReadFile.base := InMemoryReadFile.base self;
     InMemoryReadFile.ownedFile_ := owned;
     InMemoryReadFile.file_ := InMemoryReadFile.file_ self;
     InMemoryReadFile.shouldCoalesce_ := InMemoryReadFile.shouldCoalesce_ self |}.

(** A computation on an in-memory read file that does not look at
    [ownedFile_] and does not change it. *)
Definition ignores_owned {A} (m : M InMemoryReadFile.t A) : Prop :=
  forall owned self,
    m (with_owned owned self) = (fst (m self), with_owned owned (snd (m self))).

(** The calls on an in-memory write file that append. *)
Definition is_append (c : InMemoryWriteFile.call) : bool :=
  match c with
  | InMemoryWriteFile.Append _ | InMemoryWriteFile.AppendIOBuf _ => true
  | _ => false
  end.

(** A [preadv] that raises nothing but objects caught as
    [const std::exception&]. *)
Definition throws_std_only {T A} (preadv : uint64_t -> list Range -> M T A) : Prop :=
  forall offset buffers self e self',
    preadv offset buffers self = (Threw e, self') -> is_std_exception e = true.

(** * Properties *)

(** ** Bytes and buffers *)

Lemma substr_length (s : bytes) (offset len : N) :
  offset + len <= N.of_nat (List.length s) ->
  List.length (substr s offset len) = N.to_nat len.
Proof.
  intros Hle. unfold substr.
  rewrite length_take, length_drop. lia.
Qed.

Lemma view_of_memcpy (dst src : bytes) (n : N) :
  N.of_nat (List.length src) = n ->
  view_bytes {| buf := memcpy dst src; view_size := n |} = src.
Proof.
  intros <-. unfold view_bytes, memcpy. cbn [buf view_size].
  rewrite Nat2N.id. apply take_app_length.
Qed.

(** ** The monad *)

Lemma bind_returned {S A B} (m : M S A) (k : A -> M S B) s a s' :
  m s = (Returned a, s') -> bind m k s = k a s'.
Proof. intros H. unfold bind. now rewrite H. Qed.

Lemma bind_threw {S A B} (m : M S A) (k : A -> M S B) s e s' :
  m s = (Threw e, s') -> bind m k s = (Threw e, s').
Proof. intros H. unfold bind. now rewrite H. Qed.

(** A property of the state reached, proved through a bind: it holds when
    the first computation throws and is carried through the second. *)
Lemma bind_state {S A B} (R : S -> S -> Prop) (m : M S A) (k : A -> M S B) s :
  (forall s1 s2 s3, R s1 s2 -> R s2 s3 -> R s1 s3) ->
  R s (snd (m s)) ->
  (forall a s', R s' (snd (k a s'))) ->
  R s (snd (bind m k s)).
Proof.
  intros Htrans Hm Hk. unfold bind.
  destruct (m s) as [[a|e] s'] eqn:E; cbn [snd] in *.
  - eapply Htrans; [exact Hm | apply Hk].
  - exact Hm.
Qed.

(** ** Reads of an in-memory file touch the counter only *)

Module InMemoryReadFileFacts.
Import InMemoryReadFile.

Lemma same_file_refl s : same_file s s.
Proof. now repeat split. Qed.

Lemma same_file_trans s1 s2 s3 :
  same_file s1 s2 -> same_file s2 s3 -> same_file s1 s3.
Proof.
  intros (H1 & H2 & H3) (H4 & H5 & H6).
  repeat split; congruence.
Qed.

Lemma pread_same_file offset length buf s :
  same_file s (snd (pread offset length buf s)).
Proof.
  unfold pread. destruct (size s <? offset + length); now repeat split.
Qed.

Lemma pread_owned_same_file offset length s :
  same_file s (snd (pread_owned offset length s)).
Proof.
  unfold pread_owned, ReadFile.pread_owned.
  apply bind_state.
  - apply same_file_trans.
  - apply pread_same_file.
  - intros; apply same_file_refl.
Qed.

Lemma preadv_same_file offset buffers s :
  same_file s (snd (preadv offset buffers s)).
Proof.
  unfold preadv, ReadFile.preadv.
  apply bind_state.
  - apply same_file_trans.
  - apply pread_owned_same_file.
  - intros; apply same_file_refl.
Qed.

Lemma preadv_visit_same_file order regions : forall iobufs total s,
  same_file s (snd (ReadFile.preadv_visit pread order regions iobufs total s)).
Proof.
  induction order as [|i order IH]; intros iobufs total s; cbn [ReadFile.preadv_visit].
  - apply same_file_refl.
  - destruct (regions !! i) as [region|]; [|apply IH].
    apply bind_state.
    + apply same_file_trans.
    + apply pread_owned_same_file.
    + intros; apply IH.
Qed.

Lemma preadvAsync_state offset buffers s :
  snd (preadvAsync offset buffers s) = snd (preadv offset buffers s).
Proof.
  unfold preadvAsync, ReadFile.preadvAsync.
  destruct (preadv offset buffers s) as [[r|e] s']; [reflexivity|].
  now destruct (is_std_exception e).
Qed.

Lemma forget_state {S A} (m : M S A) s : snd (forget m s) = snd (m s).
Proof. unfold forget, bind. now destruct (m s) as [[a|e] s']. Qed.

Lemma exec_read_same_file c s :
  is_read c = true -> same_file s (snd (exec c s)).
Proof.
  destruct c; cbn [is_read exec]; intros Hr; try discriminate;
    rewrite forget_state.
  - apply pread_same_file.
  - apply pread_owned_same_file.
  - apply preadv_same_file.
  - apply preadv_visit_same_file.
  - rewrite preadvAsync_state. apply preadv_same_file.
Qed.

End InMemoryReadFileFacts.

(** ** 64-bit arithmetic *)

Lemma wrap64_small (n : N) : n < 2 ^ 64 -> wrap64 n = n.
Proof. apply N.mod_small. Qed.

Lemma wrap64_le (n : N) : wrap64 n <= n.
Proof. apply N.Div0.mod_le. Qed.

Lemma wrap64_add_l (a b : N) : wrap64 (wrap64 a + b) = wrap64 (a + b).
Proof. apply N.Div0.add_mod_idemp_l. Qed.


Lemma wrap64_idemp (a : N) : wrap64 (wrap64 a) = wrap64 a.
Proof. apply N.Div0.mod_mod. Qed.

Lemma total_size_from (buffers : list Range) : forall acc,
  wrap64 (fold_left (fun acc r => wrap64 (acc + range_size r)) buffers acc)
  = wrap64 (acc + sum_sizes buffers).
Proof.
  induction buffers as [|r buffers IH]; intros acc; cbn [fold_left sum_sizes fold_right].
  - now rewrite N.add_0_r.
  - rewrite IH. fold (sum_sizes buffers).
    rewrite wrap64_add_l. f_equal. lia.
Qed.

Lemma total_size_wrap (buffers : list Range) :
  wrap64 (ReadFile.total_size buffers) = wrap64 (sum_sizes buffers).
Proof. unfold ReadFile.total_size. now rewrite total_size_from. Qed.

(** ** The counter of requested bytes *)

Module CounterFacts.
Import InMemoryReadFile.





Lemma visit_requested_seq (done todo : list Region.t) :
  visit_requested (seq (List.length done) (List.length todo)) (done ++ todo)
  = sum_lengths todo.
Proof.
  revert done. induction todo as [|r todo IH]; intros done; [reflexivity|].
  cbn [List.length seq visit_requested fold_right sum_lengths].
  rewrite list_lookup_middle by reflexivity.
  f_equal.
  specialize (IH (done ++ [r])).
  rewrite length_app, <- app_assoc in IH. cbn [List.length app] in IH.
  rewrite Nat.add_1_r in IH. exact IH.
Qed.


End CounterFacts.

(** ** The batch read over any backend whose [pread] keeps its contract *)

Section BatchRead.
Context {T : Type}.

(** The bytes of the file behind an object. *)
Variable content : T -> bytes.
Variable pread : uint64_t -> uint64_t -> bytes -> M T filled.

(** The contract of the primitive on a range inside the file. *)
Hypothesis pread_in_range : forall offset length buf s,
  offset + length <= N.of_nat (List.length (content s)) ->
  exists s',
    pread offset length buf s
    = (Returned {| buf := memcpy buf (substr (content s) offset length);
                   view_size := length |}, s')
    /\ content s' = content s.

Lemma pread_owned_in_range offset length s :
  offset + length <= N.of_nat (List.length (content s)) ->
  exists s',
    ReadFile.pread_owned pread offset length s
    = (Returned (substr (content s) offset length), s')
    /\ content s' = content s.
Proof.
  intros Hin.
  destruct (pread_in_range offset length (replicate (N.to_nat length) x00) s Hin)
    as (s' & Hp & Hc).
  exists s'. split; [|exact Hc].
  unfold ReadFile.pread_owned. rewrite (bind_returned _ _ _ _ _ Hp).
  unfold ret. do 2 f_equal.
  apply view_of_memcpy. rewrite substr_length by exact Hin. lia.
Qed.

Lemma preadv_visit_outputs regions order : forall iobufs total s,
  (forall r, r ∈ regions -> in_file (content s) r) ->
  exists outs total' s',
    ReadFile.preadv_visit pread order regions iobufs total s
    = (Returned (outs, total'), s')
    /\ content s' = content s
    /\ List.length outs = List.length iobufs
    /\ (forall i r, i ∈ order -> regions !! i = Some r ->
          (i < List.length iobufs)%nat -> outs !! i = Some (region_bytes (content s) r))
    /\ (forall i, i ∉ order -> outs !! i = iobufs !! i).
Proof.
  induction order as [|i0 order IH]; intros iobufs total s Hin;
    cbn [ReadFile.preadv_visit].
  - exists iobufs, total, s. repeat split; try reflexivity.
    intros i r Hi. now apply not_elem_of_nil in Hi.
  - destruct (regions !! i0) as [r0|] eqn:Hr0.
    + destruct (pread_owned_in_range (Region.offset r0) (Region.length r0) s)
        as (s1 & Hp & Hc1).
      { apply Hin. eapply list_elem_of_lookup_2, Hr0. }
      rewrite (bind_returned _ _ _ _ _ Hp).
      destruct (IH (<[i0:=region_bytes (content s) r0]> iobufs)
                   (wrap64 (total + Region.length r0)) s1)
        as (outs & total' & s' & Hrun & Hc & Hlen & Hin_order & Hout).
      { intros r Hr. unfold in_file. rewrite Hc1. now apply Hin. }
      exists outs, total', s'. unfold region_bytes in *.
      rewrite Hc1 in *. rewrite length_insert in *.
      repeat split; try assumption.
      * intros i r Hi Hr Hlt.
        destruct (decide (i ∈ order)) as [Hrest|Hrest].
        { now apply Hin_order. }
        apply elem_of_cons in Hi as [->|Hi]; [|contradiction].
        rewrite Hout by exact Hrest.
        rewrite list_lookup_insert_eq by exact Hlt.
        rewrite Hr0 in Hr. now injection Hr as ->.
      * intros i Hi. apply not_elem_of_cons in Hi as [Hne Hi].
        rewrite Hout by exact Hi.
        now apply list_lookup_insert_ne.
    + destruct (IH iobufs total s Hin)
        as (outs & total' & s' & Hrun & Hc & Hlen & Hin_order & Hout).
      exists outs, total', s'. repeat split; try assumption.
      * intros i r Hi Hr Hlt.
        destruct (decide (i ∈ order)) as [Hrest|Hrest].
        { now apply Hin_order. }
        apply elem_of_cons in Hi as [->|Hi]; [|contradiction].
        rewrite Hr0 in Hr. discriminate.
      * intros i Hi. apply not_elem_of_cons in Hi as [Hne Hi]. now apply Hout.
Qed.

(** The outputs of a visit in an order that reaches every index. *)
Lemma preadv_visit_all regions order iobufs total s :
  List.length iobufs = List.length regions ->
  (forall i, (i < List.length regions)%nat -> i ∈ order) ->
  (forall r, r ∈ regions -> in_file (content s) r) ->
  exists total' s',
    ReadFile.preadv_visit pread order regions iobufs total s
    = (Returned (region_bytes (content s) <$> regions, total'), s')
    /\ content s' = content s.
Proof.
  intros Hlen Hall Hin.
  destruct (preadv_visit_outputs regions order iobufs total s Hin)
    as (outs & total' & s' & Hrun & Hc & Hlen' & Hin_order & _).
  exists total', s'. split; [|exact Hc].
  rewrite Hrun. do 3 f_equal.
  apply list_eq. intros i. rewrite list_lookup_fmap.
  destruct (regions !! i) as [r|] eqn:Hr; cbn.
  - pose proof (lookup_lt_Some _ _ _ Hr) as Hlt.
    apply Hin_order; [now apply Hall | exact Hr | lia].
  - apply lookup_ge_None. apply lookup_ge_None in Hr. lia.
Qed.

(** C1.  Over a backend whose [pread] keeps its contract, the batch read
    [preadv(regions, iobufs)] of regions that lie inside the file, given
    as many output buffers as regions, returns, and leaves in [iobufs[i]]
    exactly the bytes of the file at [regions[i]], for every index [i].
    The regions may overlap and come in any order.  The outputs do not
    depend on the order in which the reads are issued: a visit of the
    indices in any order that reaches each of them gives the same
    outputs. *)
Theorem preadv_regions_populates_outputs
    (regions : list Region.t) (iobufs : list IOBuf) (s : T) :
  List.length iobufs = List.length regions ->
  (forall r, r ∈ regions -> in_file (content s) r) ->
  exists outs total s',
    ReadFile.preadv_regions pread regions iobufs s = (Returned (outs, total), s')
    /\ List.length outs = List.length regions
    /\ (forall i r, regions !! i = Some r ->
           outs !! i = Some (region_bytes (content s) r))
    /\ (forall order,
           (forall i, (i < List.length regions)%nat -> i ∈ order) ->
           exists total' s'',
             ReadFile.preadv_visit pread order regions iobufs 0 s
             = (Returned (outs, total'), s'')).
Proof.
  intros Hlen Hin.
  destruct (preadv_visit_all regions (seq 0 (List.length regions)) iobufs 0 s)
    as (total & s' & Hrun & _); try assumption.
  { intros i Hi. apply elem_of_seq. lia. }
  exists (region_bytes (content s) <$> regions), total, s'.
  split; [exact Hrun|]. split; [apply length_fmap|]. split.
  - intros i r Hr. now rewrite list_lookup_fmap, Hr.
  - intros order Hall.
    destruct (preadv_visit_all regions order iobufs 0 s)
      as (total' & s'' & Hrun' & _); try assumption.
    now exists total', s''.
Qed.

End BatchRead.

(** ** InMemoryReadFile::pread *)

Lemma in_memory_pread_in_range offset length buf (s : InMemoryReadFile.t) :
  offset + length <= N.of_nat (List.length (InMemoryReadFile.file_ s)) ->
  exists s',
    InMemoryReadFile.pread offset length buf s
    = (Returned {| buf := memcpy buf (substr (InMemoryReadFile.file_ s) offset length);
                   view_size := length |}, s')
    /\ InMemoryReadFile.file_ s' = InMemoryReadFile.file_ s.
Proof.
  intros Hin. unfold InMemoryReadFile.pread, InMemoryReadFile.size.
  destruct (N.ltb_spec (N.of_nat (List.length (InMemoryReadFile.file_ s)))
              (offset + length)) as [Hlt|Hge]; [lia|].
  eexists. split; reflexivity.
Qed.

Lemma preadv_regions_populates_outputs_witness :
  exists outs total s',
    InMemoryReadFile.preadv_regions
      [Region.mk 6 5; Region.mk 0 5; Region.mk 3 4] [[]; []; []]
      (InMemoryReadFile.make hello_world)
    = (Returned (outs, total), s')
    /\ outs !! 0%nat = Some (list_byte_of_string "world")
    /\ outs !! 1%nat = Some (list_byte_of_string "hello")
    /\ outs !! 2%nat = Some (list_byte_of_string "lo w").
Proof.
  destruct (preadv_regions_populates_outputs
              InMemoryReadFile.file_ InMemoryReadFile.pread
              in_memory_pread_in_range
              [Region.mk 6 5; Region.mk 0 5; Region.mk 3 4] [[]; []; []]
              (InMemoryReadFile.make hello_world))
    as (outs & total & s' & Hrun & _ & Hout & _).
  - reflexivity.
  - intros r Hr. unfold in_file.
    repeat (apply elem_of_cons in Hr as [->|Hr]); try (vm_compute; discriminate).
    now apply not_elem_of_nil in Hr.
  - exists outs, total, s'. split; [exact Hrun|].
    split; [|split];
      [refine (eq_trans (Hout 0%nat _ eq_refl) _)
      |refine (eq_trans (Hout 1%nat _ eq_refl) _)
      |refine (eq_trans (Hout 2%nat _ eq_refl) _)]; reflexivity.
Defined.

(** ** The default preadvAsync *)

(** C2, as amended.  When the synchronous [preadv] raises an error whose
    type derives from [std::exception], as every error raised by Velox
    does, the default [preadvAsync] does not throw: it returns the failed
    future that [folly::makeSemiFuture] builds from that error, and leaves
    the object as [preadv] left it. *)
Theorem preadvAsync_catches_std_exception
    {T A : Type} (preadv : uint64_t -> list Range -> M T A)
    (offset : uint64_t) (buffers : list Range) (self self' : T) (e : exception) :
  preadv offset buffers self = (Threw e, self') ->
  is_std_exception e = true ->
  ReadFile.preadvAsync preadv offset buffers self
  = (Returned (Failed (make_exception_wrapper e)), self').
Proof.
  intros Hthrew Hstd. unfold ReadFile.preadvAsync.
  rewrite Hthrew, Hstd. reflexivity.
Qed.

Lemma preadvAsync_catches_std_exception_witness :
  exists message self',
    InMemoryReadFile.preadvAsync 100 [Mem [x00]] (InMemoryReadFile.make hello_world)
    = (Returned (Failed (make_exception_wrapper (VeloxException OutOfRange message))),
       self').
Proof.
  eexists _, _.
  apply (preadvAsync_catches_std_exception InMemoryReadFile.preadv
           100 [Mem [x00]] (InMemoryReadFile.make hello_world)).
  - vm_compute. reflexivity.
  - reflexivity.
Defined.

(** C2 as stated fails: a [preadv] that throws an object that is not a
    [std::exception] is not caught by the handler, and the object leaves
    [preadvAsync]. *)
Lemma preadvAsync_foreign_escapes :
  preadv_throwing_int 0 [] tt = (Threw (Foreign "int"), tt) /\
  ReadFile.preadvAsync preadv_throwing_int 0 [] tt = (Threw (Foreign "int"), tt) /\
  ~ (exists future self',
       ReadFile.preadvAsync preadv_throwing_int 0 [] tt = (Returned future, self')).
Proof.
  split; [reflexivity|]. split; [reflexivity|].
  intros (future & self' & H). discriminate H.
Qed.

(** C3.  On every request on which the synchronous [preadv] returns, the
    future of the default [preadvAsync] is ready and holds the value that
    [preadv] returned; the object is left in the same state. *)
Theorem preadvAsync_resolves_to_preadv
    {T A : Type} (preadv : uint64_t -> list Range -> M T A)
    (offset : uint64_t) (buffers : list Range) (self self' : T) (result : A) :
  preadv offset buffers self = (Returned result, self') ->
  ReadFile.preadvAsync preadv offset buffers self = (Returned (Ready result), self').
Proof.
  intros Hret. unfold ReadFile.preadvAsync. now rewrite Hret.
Qed.

Lemma preadvAsync_resolves_to_preadv_witness :
  exists self',
    InMemoryReadFile.preadvAsync 0
      [Mem (replicate 5 x00); Null 1; Mem (replicate 5 x00)]
      (InMemoryReadFile.make hello_world)
    = (Returned (Ready ([Mem (list_byte_of_string "hello"); Null 1;
                         Mem (list_byte_of_string "world")], 11)), self').
Proof.
  eexists.
  apply (preadvAsync_resolves_to_preadv InMemoryReadFile.preadv 0
           [Mem (replicate 5 x00); Null 1; Mem (replicate 5 x00)]
           (InMemoryReadFile.make hello_world)).
  vm_compute. reflexivity.
Defined.

(** ** InMemoryReadFile::shouldCoalesce *)

Lemma run_last_setting (cs : list InMemoryReadFile.call) : forall s,
  InMemoryReadFile.shouldCoalesce (InMemoryReadFile.run cs s)
  = InMemoryReadFile.last_setting (InMemoryReadFile.shouldCoalesce s) cs.
Proof.
  unfold InMemoryReadFile.run, InMemoryReadFile.last_setting.
  induction cs as [|c cs IH]; intros s; cbn [fold_left]; [reflexivity|].
  rewrite IH. f_equal.
  destruct (InMemoryReadFile.is_read c) eqn:Hr.
  - destruct (InMemoryReadFileFacts.exec_read_same_file c s Hr) as (_ & _ & Hsame).
    unfold InMemoryReadFile.shouldCoalesce. rewrite Hsame.
    now destruct c.
  - destruct c; try discriminate; reflexivity.
Qed.

(** C4, as amended.  A newly constructed [InMemoryReadFile] has
    [shouldCoalesce() == false]; after any sequence of calls
    [shouldCoalesce()] returns the argument of the last
    [setShouldCoalesce] of the sequence, and [false] when the sequence has
    none. *)
Theorem shouldCoalesce_is_last_setting
    (file : bytes) (cs : list InMemoryReadFile.call) :
  InMemoryReadFile.shouldCoalesce (InMemoryReadFile.run cs (InMemoryReadFile.make file))
  = InMemoryReadFile.last_setting false cs
  /\ InMemoryReadFile.shouldCoalesce
       (InMemoryReadFile.run cs (InMemoryReadFile.make_view file))
     = InMemoryReadFile.last_setting false cs.
Proof. split; apply run_last_setting. Qed.

(** C4 as stated fails: [setShouldCoalesce(true)] is a public method, and
    the state it reaches has [shouldCoalesce() == true]. *)
Lemma shouldCoalesce_true_reachable :
  InMemoryReadFile.shouldCoalesce
    (InMemoryReadFile.run [InMemoryReadFile.SetShouldCoalesce true]
       (InMemoryReadFile.make hello_world))
  <> false.
Proof. discriminate. Qed.

(** ** ReadFile::bytesRead *)

(** What the default methods add to the counter, over any primitive that
    adds the length it is asked for. *)
Section Counting.
Context {T : Type}.
Variable counter : T -> uint64_t.
Variable pread : uint64_t -> uint64_t -> bytes -> M T filled.

Hypothesis pread_adds : forall offset length buf s,
  counter (snd (pread offset length buf s)) = wrap64 (counter s + length).




End Counting.

(** *** The reads of a local file *)




(** *** Every read call of every read file *)










(** *** Where the claim fails *)






(** ** The optional operations of WriteFile *)

(** C6.  The bodies that [WriteFile] gives to [append(IOBuf)], [write],
    [truncate], [setAttributes] and [getAttributes] raise a
    [NotImplemented] error and leave the object untouched, for a backend
    with any members; [InMemoryWriteFile], which overrides none of the
    last four, fails so on each of them. *)
Theorem WriteFile_optional_operations_not_implemented :
  (forall (S : Type) data,
      not_implemented (S:=S) (WriteFile.append_iobuf data)
        "IOBuf appending is not implemented")
  /\ (forall (S : Type) iovecs offset length,
        not_implemented (S:=S) (WriteFile.write iovecs offset length)
          "write is not implemented")
  /\ (forall (S : Type) newSize,
        not_implemented (S:=S) (WriteFile.truncate newSize)
          "truncate is not implemented")
  /\ (forall (S : Type) attributes,
        not_implemented (S:=S) (WriteFile.setAttributes attributes)
          "setAttributes is not implemented")
  /\ (forall (S : Type),
        not_implemented (S:=S) WriteFile.getAttributes
          "getAttributes is not implemented")
  /\ (forall iovecs offset length,
        not_implemented (InMemoryWriteFile.write iovecs offset length)
          "write is not implemented")
  /\ (forall newSize,
        not_implemented (InMemoryWriteFile.truncate newSize)
          "truncate is not implemented")
  /\ (forall attributes,
        not_implemented (InMemoryWriteFile.setAttributes attributes)
          "setAttributes is not implemented")
  /\ not_implemented InMemoryWriteFile.getAttributes
       "getAttributes is not implemented".
Proof. repeat split. Qed.

(** ** ReadFile::pread *)




(** ** hasPreadvAsync *)

(** C8.  The body of [ReadFile::hasPreadvAsync] returns false on every
    object, and so does the in-memory file, which inherits it; a
    [LocalReadFile] returns true exactly when the executor it was
    constructed with is not null, for both constructors. *)
Theorem hasPreadvAsync_iff_executor :
  (forall (T : Type) (self : T), ReadFile.hasPreadvAsync self = false)
  /\ (forall self, InMemoryReadFile.hasPreadvAsync self = false)
  /\ (forall path executor bufferIo fd size,
        LocalReadFile.hasPreadvAsync (LocalReadFile.make path executor bufferIo fd size)
        = true <-> executor <> None)
  /\ (forall fd executor size,
        LocalReadFile.hasPreadvAsync (LocalReadFile.make_fd fd executor size) = true
        <-> executor <> None).
Proof.
  split; [reflexivity|]. split; [reflexivity|].
  split; intros; unfold LocalReadFile.hasPreadvAsync; cbn;
    destruct executor; split; congruence.
Qed.

(** ** WriteFile::size after close *)

Lemma local_exec_size size_after_write (c : LocalWriteFile.call) (w : LocalWriteFile.t) :
  LocalWriteFile.size (snd (LocalWriteFile.exec size_after_write c w))
  = LocalWriteFile.logical_step size_after_write (LocalWriteFile.size w) c.
Proof. destruct c as [? []|? []|? ? ? []|? []|[]|? []|]; reflexivity. Qed.

Lemma local_run_size size_after_write (cs : list LocalWriteFile.call) : forall w,
  LocalWriteFile.size (LocalWriteFile.run size_after_write cs w)
  = LocalWriteFile.logical_size size_after_write (LocalWriteFile.size w) cs.
Proof.
  unfold LocalWriteFile.run, LocalWriteFile.logical_size.
  induction cs as [|c cs IH]; intros w; cbn [fold_left]; [reflexivity|].
  now rewrite IH, local_exec_size.
Qed.

Lemma in_memory_run_size (cs : list InMemoryWriteFile.call) : forall w,
  InMemoryWriteFile.size (InMemoryWriteFile.run cs w)
  = InMemoryWriteFile.size w
    + fold_right (fun c acc => InMemoryWriteFile.appended c + acc) 0 cs.
Proof.
  unfold InMemoryWriteFile.run.
  induction cs as [|c cs IH]; intros w; cbn [fold_left fold_right]; [lia|].
  rewrite IH.
  destruct c; cbn [InMemoryWriteFile.exec InMemoryWriteFile.appended snd];
    unfold InMemoryWriteFile.size; cbn; rewrite ?length_app; lia.
Qed.

(** C9.  [size()] takes no part of the object but the tracked size, so it
    can be called after [close()].  For a [LocalWriteFile], after any
    sequence of appends, positional writes, truncates and other calls,
    with or without a flush among them, followed by [close()] (whether the
    system call behind it succeeds or not), [size()] is the logical size:
    the size at the start, plus the appended bytes, or as set by the last
    truncate or positional write and what was appended since.  For an
    [InMemoryWriteFile] it is the length of the string at the start plus
    the appended bytes. *)
Theorem size_after_close :
  (forall size_after_write (cs : list LocalWriteFile.call)
          (w : LocalWriteFile.t) (sys_ok : bool),
      LocalWriteFile.size
        (snd (LocalWriteFile.close sys_ok (LocalWriteFile.run size_after_write cs w)))
      = LocalWriteFile.logical_size size_after_write (LocalWriteFile.size w) cs)
  /\ (forall (cs : list InMemoryWriteFile.call) (file : bytes),
        InMemoryWriteFile.size
          (snd (InMemoryWriteFile.close
                  (InMemoryWriteFile.run cs (InMemoryWriteFile.make file))))
        = N.of_nat (List.length file)
          + fold_right (fun c acc => InMemoryWriteFile.appended c + acc) 0 cs).
Proof.
  split.
  - intros size_after_write cs w sys_ok.
    rewrite <- local_run_size. now destruct sys_ok.
  - intros cs file. cbn [InMemoryWriteFile.close ret snd].
    now rewrite in_memory_run_size.
Qed.

(** ** WriteFile::getName *)

(** C10.  The body of [WriteFile::getName] raises a [NotImplemented] error,
    for a backend with any members; [InMemoryWriteFile] does not override
    it, so [getName()] fails on every in-memory write file, whereas a
    [LocalWriteFile] returns its path. *)
Theorem WriteFile_getName_not_implemented :
  (forall (S : Type),
      not_implemented (S:=S) WriteFile.getName "getName is not implemented")
  /\ not_implemented InMemoryWriteFile.getName "getName is not implemented"
  /\ (forall w : LocalWriteFile.t,
        LocalWriteFile.getName w = (Returned (LocalWriteFile.path_ w), w)).
Proof. repeat split. Qed.

(** * Further properties *)

(** ** What the future of the default preadvAsync tells about preadv *)

(** X1.  The future of the default [preadvAsync] is ready with a value
    exactly when the synchronous [preadv] returns that value, and the
    object is left in the same state by both. *)
Theorem preadvAsync_ready_iff_returned
    {T A : Type} (preadv : uint64_t -> list Range -> M T A)
    (offset : uint64_t) (buffers : list Range) (self self' : T) (value : A) :
  ReadFile.preadvAsync preadv offset buffers self = (Returned (Ready value), self')
  <-> preadv offset buffers self = (Returned value, self').
Proof.
  unfold ReadFile.preadvAsync.
  destruct (preadv offset buffers self) as [[v|e] s1].
  - split; intros H; injection H as -> ->; reflexivity.
  - destruct (is_std_exception e); split; intros H; discriminate H.
Qed.

(** X2.  The default [preadvAsync] returns a failed future exactly when
    [preadv] throws an object that derives from [std::exception]; the
    future is then the one made from that object. *)
Theorem preadvAsync_failed_iff_std_exception
    {T A : Type} (preadv : uint64_t -> list Range -> M T A)
    (offset : uint64_t) (buffers : list Range) (self self' : T)
    (ew : exception_wrapper) :
  ReadFile.preadvAsync preadv offset buffers self = (Returned (Failed ew), self')
  <-> exists e,
        preadv offset buffers self = (Threw e, self')
        /\ is_std_exception e = true
        /\ ew = make_exception_wrapper e.
Proof.
  unfold ReadFile.preadvAsync.
  destruct (preadv offset buffers self) as [[v|e] s1].
  - split; [intros H; discriminate H | intros (e & H & _); discriminate H].
  - destruct (is_std_exception e) eqn:Hstd; split.
    + intros H. injection H as <- <-. now exists e.
    + intros (e' & H & _ & ->). now injection H as -> ->.
    + intros H; discriminate H.
    + intros (e' & H & Hstd' & _). injection H as -> ->. congruence.
Qed.

(** X3.  The default [preadvAsync] throws exactly when [preadv] throws an
    object that does not derive from [std::exception], and what leaves the
    call is that object. *)
Theorem preadvAsync_throws_iff_foreign
    {T A : Type} (preadv : uint64_t -> list Range -> M T A)
    (offset : uint64_t) (buffers : list Range) (self self' : T) (e : exception) :
  ReadFile.preadvAsync preadv offset buffers self = (Threw e, self')
  <-> preadv offset buffers self = (Threw e, self') /\ is_std_exception e = false.
Proof.
  unfold ReadFile.preadvAsync.
  destruct (preadv offset buffers self) as [[v|e0] s1].
  - split; [intros H; discriminate H | intros [H _]; discriminate H].
  - destruct (is_std_exception e0) eqn:Hstd; split.
    + intros H; discriminate H.
    + intros [H Hf]. injection H as -> ->. congruence.
    + intros H. injection H as <- <-. now split.
    + intros [H _]. now injection H as -> ->.
Qed.

Lemma in_memory_pread_throws_std offset length buffer self e self' :
  InMemoryReadFile.pread offset length buffer self = (Threw e, self') ->
  is_std_exception e = true.
Proof.
  unfold InMemoryReadFile.pread.
  destruct (InMemoryReadFile.size self <? offset + length); intros H;
    [now injection H as <- _ | discriminate H].
Qed.

Lemma in_memory_preadv_throws_std : throws_std_only InMemoryReadFile.preadv.
Proof.
  intros offset buffers self e self'.
  unfold InMemoryReadFile.preadv, ReadFile.preadv, ReadFile.pread_owned, bind.
  destruct (InMemoryReadFile.pread _ _ _ self) as [[r|e0] s1] eqn:E;
    cbn; intros H; [discriminate H|].
  injection H as <- _. eapply in_memory_pread_throws_std, E.
Qed.

(** X4.  Over a backend whose [preadv] raises nothing but exceptions
    derived from [std::exception], the default [preadvAsync] never throws:
    every call returns a future.  The in-memory file is such a backend. *)
Theorem preadvAsync_returns_a_future
    {T A : Type} (preadv : uint64_t -> list Range -> M T A)
    (offset : uint64_t) (buffers : list Range) (self : T) :
  throws_std_only preadv ->
  exists future,
    ReadFile.preadvAsync preadv offset buffers self
    = (Returned future, snd (preadv offset buffers self)).
Proof.
  intros Hstd. unfold ReadFile.preadvAsync.
  destruct (preadv offset buffers self) as [[v|e] s1] eqn:E; cbn [snd].
  - now eexists.
  - rewrite (Hstd _ _ _ _ _ E). now eexists.
Qed.

Lemma preadvAsync_returns_a_future_witness :
  exists future,
    InMemoryReadFile.preadvAsync 7 [Mem (replicate 8 x00)]
      (InMemoryReadFile.make hello_world)
    = (Returned future,
       snd (InMemoryReadFile.preadv 7 [Mem (replicate 8 x00)]
              (InMemoryReadFile.make hello_world))).
Proof.
  apply (preadvAsync_returns_a_future InMemoryReadFile.preadv).
  exact in_memory_preadv_throws_std.
Defined.

(** ** LocalReadFile::getName *)

(** X5.  [LocalReadFile::getName()] never returns the empty string: it
    returns [path_] exactly when [path_] is not empty, and a placeholder
    otherwise. *)
Theorem LocalReadFile_getName_not_empty (self : LocalReadFile.t) :
  LocalReadFile.getName self <> EmptyString
  /\ (LocalReadFile.getName self = LocalReadFile.path_ self
      <-> LocalReadFile.path_ self <> EmptyString)
  /\ (LocalReadFile.path_ self = EmptyString ->
      LocalReadFile.getName self = "<LocalReadFile>"%string).
Proof.
  unfold LocalReadFile.getName.
  destruct (decide (LocalReadFile.path_ self = EmptyString)) as [Hempty|Hpath].
  - rewrite Hempty. split; [discriminate|]. split; [|reflexivity].
    split; [discriminate | congruence].
  - split; [exact Hpath|]. split; [now split | congruence].
Qed.

(** ** InMemoryWriteFile without appends *)

Lemma in_memory_exec_no_append (c : InMemoryWriteFile.call) (w : InMemoryWriteFile.t) :
  is_append c = false -> snd (InMemoryWriteFile.exec c w) = w.
Proof. destruct c; cbn; intros H; try discriminate H; reflexivity. Qed.

(** X6.  Nothing but an append changes an in-memory write file: after any
    sequence of positional writes, truncates and flushes, closed or not,
    the bytes are those it had before; the unsupported operations fail
    without a side effect, however often they are called. *)
Theorem in_memory_unchanged_without_append
    (cs : list InMemoryWriteFile.call) (w : InMemoryWriteFile.t) :
  forallb (fun c => negb (is_append c)) cs = true ->
  InMemoryWriteFile.run cs w = w
  /\ snd (InMemoryWriteFile.close (InMemoryWriteFile.run cs w)) = w.
Proof.
  intros Hno.
  assert (InMemoryWriteFile.run cs w = w) as Hrun.
  { unfold InMemoryWriteFile.run. revert w.
    induction cs as [|c cs IH]; intros w; cbn [fold_left forallb] in *;
      [reflexivity|].
    apply andb_prop in Hno as [Hc Hcs].
    rewrite in_memory_exec_no_append by now apply negb_true_iff.
    now apply IH. }
  split; [exact Hrun|]. now rewrite Hrun.
Qed.

Lemma in_memory_unchanged_without_append_witness :
  InMemoryWriteFile.run
    [InMemoryWriteFile.Write [hello_world] 0%Z 11%Z; InMemoryWriteFile.Flush;
     InMemoryWriteFile.Truncate 5%Z; InMemoryWriteFile.Flush]
    (InMemoryWriteFile.make hello_world)
  = InMemoryWriteFile.make hello_world
  /\ snd (InMemoryWriteFile.close
            (InMemoryWriteFile.run
               [InMemoryWriteFile.Write [hello_world] 0%Z 11%Z; InMemoryWriteFile.Flush;
                InMemoryWriteFile.Truncate 5%Z; InMemoryWriteFile.Flush]
               (InMemoryWriteFile.make hello_world)))
     = InMemoryWriteFile.make hello_world.
Proof.
  apply (in_memory_unchanged_without_append
           [InMemoryWriteFile.Write [hello_world] 0%Z 11%Z; InMemoryWriteFile.Flush;
            InMemoryWriteFile.Truncate 5%Z; InMemoryWriteFile.Flush]
           (InMemoryWriteFile.make hello_world)).
  reflexivity.
Defined.

(** ** The bytes of an in-memory read file are fixed at construction *)

Lemma in_memory_exec_file (c : InMemoryReadFile.call) (s : InMemoryReadFile.t) :
  InMemoryReadFile.file_ (snd (InMemoryReadFile.exec c s)) = InMemoryReadFile.file_ s.
Proof.
  destruct (InMemoryReadFile.is_read c) eqn:Hr.
  - now destruct (InMemoryReadFileFacts.exec_read_same_file c s Hr) as (_ & H & _).
  - destruct c; try discriminate Hr; reflexivity.
Qed.

Lemma in_memory_run_file (cs : list InMemoryReadFile.call) : forall s,
  InMemoryReadFile.file_ (InMemoryReadFile.run cs s) = InMemoryReadFile.file_ s.
Proof.
  unfold InMemoryReadFile.run.
  induction cs as [|c cs IH]; intros s; cbn [fold_left]; [reflexivity|].
  now rewrite IH, in_memory_exec_file.
Qed.

(** X7.  [file_] is a [const] member: whatever is called on an
    [InMemoryReadFile], reads that fail included, [size()] and
    [memoryUsage()] stay the length of the string it was constructed
    from, for both constructors. *)
Theorem in_memory_size_is_constant
    (file : bytes) (cs : list InMemoryReadFile.call) :
  InMemoryReadFile.size (InMemoryReadFile.run cs (InMemoryReadFile.make file))
  = N.of_nat (List.length file)
  /\ InMemoryReadFile.memoryUsage (InMemoryReadFile.run cs (InMemoryReadFile.make file))
     = N.of_nat (List.length file)
  /\ InMemoryReadFile.size (InMemoryReadFile.run cs (InMemoryReadFile.make_view file))
     = N.of_nat (List.length file)
  /\ InMemoryReadFile.memoryUsage
       (InMemoryReadFile.run cs (InMemoryReadFile.make_view file))
     = N.of_nat (List.length file).
Proof.
  unfold InMemoryReadFile.memoryUsage, InMemoryReadFile.size.
  rewrite !in_memory_run_file. repeat split.
Qed.

(** ** The two constructors of InMemoryReadFile *)

Lemma ignores_owned_ret {A} (a : A) : ignores_owned (ret a).
Proof. intros owned self. reflexivity. Qed.

Lemma ignores_owned_bind {A B} (m : M InMemoryReadFile.t A)
    (k : A -> M InMemoryReadFile.t B) :
  ignores_owned m -> (forall a, ignores_owned (k a)) -> ignores_owned (bind m k).
Proof.
  intros Hm Hk owned self. unfold bind. rewrite Hm.
  destruct (m self) as [[a|e] s1]; cbn [fst snd]; [apply Hk | reflexivity].
Qed.

Lemma ignores_owned_pread offset length buffer :
  ignores_owned (InMemoryReadFile.pread offset length buffer).
Proof.
  intros owned self. unfold InMemoryReadFile.pread.
  change (InMemoryReadFile.size (with_owned owned self))
    with (InMemoryReadFile.size self).
  now destruct (InMemoryReadFile.size self <? offset + length).
Qed.

Lemma ignores_owned_pread_owned offset length :
  ignores_owned (InMemoryReadFile.pread_owned offset length).
Proof.
  apply ignores_owned_bind; [apply ignores_owned_pread|].
  intros r. apply ignores_owned_ret.
Qed.

Lemma ignores_owned_preadv offset buffers :
  ignores_owned (InMemoryReadFile.preadv offset buffers).
Proof.
  apply ignores_owned_bind; [apply ignores_owned_pread_owned|].
  intros tmp. apply ignores_owned_ret.
Qed.

Lemma ignores_owned_preadv_visit order regions : forall iobufs total,
  ignores_owned (ReadFile.preadv_visit InMemoryReadFile.pread order regions iobufs total).
Proof.
  induction order as [|i order IH]; intros iobufs total; cbn [ReadFile.preadv_visit].
  - apply ignores_owned_ret.
  - destruct (regions !! i) as [region|]; [|apply IH].
    apply ignores_owned_bind; [apply ignores_owned_pread_owned|].
    intros data. apply IH.
Qed.

Lemma ignores_owned_preadvAsync offset buffers :
  ignores_owned (InMemoryReadFile.preadvAsync offset buffers).
Proof.
  intros owned self.
  unfold InMemoryReadFile.preadvAsync, ReadFile.preadvAsync.
  rewrite ignores_owned_preadv.
  destruct (InMemoryReadFile.preadv offset buffers self) as [[r|e] s1];
    cbn [fst snd]; [reflexivity|].
  now destruct (is_std_exception e).
Qed.

Lemma ignores_owned_exec (c : InMemoryReadFile.call) :
  ignores_owned (InMemoryReadFile.exec c).
Proof.
  destruct c; cbn [InMemoryReadFile.exec];
    try (apply ignores_owned_bind; [|intros x; apply ignores_owned_ret]).
  - apply ignores_owned_pread.
  - apply ignores_owned_pread_owned.
  - apply ignores_owned_preadv.
  - apply ignores_owned_preadv_visit.
  - apply ignores_owned_preadvAsync.
  - intros owned self. reflexivity.
  - intros owned self. reflexivity.
Qed.

Lemma run_with_owned (cs : list InMemoryReadFile.call) : forall owned self,
  InMemoryReadFile.run cs (with_owned owned self)
  = with_owned owned (InMemoryReadFile.run cs self).
Proof.
  unfold InMemoryReadFile.run.
  induction cs as [|c cs IH]; intros owned self; cbn [fold_left]; [reflexivity|].
  rewrite ignores_owned_exec. cbn [snd]. apply IH.
Qed.

(** X8.  An [InMemoryReadFile] constructed from an owned string and one
    constructed from a view of the same bytes cannot be told apart: after
    the same calls they differ in [ownedFile_] only, every read gives the
    same result or raises the same error on both, and the accessors
    agree. *)
Theorem in_memory_constructors_agree
    (file : bytes) (cs : list InMemoryReadFile.call) :
  let owned := InMemoryReadFile.run cs (InMemoryReadFile.make file) in
  let view := InMemoryReadFile.run cs (InMemoryReadFile.make_view file) in
  owned = with_owned file view
  /\ (forall offset length buffer,
        fst (InMemoryReadFile.pread offset length buffer owned)
        = fst (InMemoryReadFile.pread offset length buffer view))
  /\ (forall offset length,
        fst (InMemoryReadFile.pread_owned offset length owned)
        = fst (InMemoryReadFile.pread_owned offset length view))
  /\ (forall offset buffers,
        fst (InMemoryReadFile.preadv offset buffers owned)
        = fst (InMemoryReadFile.preadv offset buffers view))
  /\ (forall regions iobufs,
        fst (InMemoryReadFile.preadv_regions regions iobufs owned)
        = fst (InMemoryReadFile.preadv_regions regions iobufs view))
  /\ (forall offset buffers,
        fst (InMemoryReadFile.preadvAsync offset buffers owned)
        = fst (InMemoryReadFile.preadvAsync offset buffers view))
  /\ InMemoryReadFile.size owned = InMemoryReadFile.size view
  /\ InMemoryReadFile.bytesRead owned = InMemoryReadFile.bytesRead view
  /\ InMemoryReadFile.shouldCoalesce owned = InMemoryReadFile.shouldCoalesce view.
Proof.
  intros owned view.
  assert (owned = with_owned file view) as E.
  { subst owned view.
    change (InMemoryReadFile.make file)
      with (with_owned file (InMemoryReadFile.make_view file)).
    apply run_with_owned. }
  split; [exact E|]. rewrite E.
  split; [intros; now rewrite ignores_owned_pread|].
  split; [intros; now rewrite ignores_owned_pread_owned|].
  split; [intros; now rewrite ignores_owned_preadv|].
  split; [intros; unfold InMemoryReadFile.preadv_regions, ReadFile.preadv_regions;
          now rewrite ignores_owned_preadv_visit|].
  split; [intros; now rewrite ignores_owned_preadvAsync|].
  now repeat split.
Qed.

(** ** preadv over a list of destinations *)

Lemma total_size_lt_from (buffers : list Range) : forall acc,
  acc < 2 ^ 64 ->
  fold_left (fun acc r => wrap64 (acc + range_size r)) buffers acc < 2 ^ 64.
Proof.
  induction buffers as [|r buffers IH]; intros acc Hacc; cbn [fold_left];
    [exact Hacc|].
  apply IH. apply N.mod_lt. discriminate.
Qed.

Lemma total_size_exact (buffers : list Range) :
  sum_sizes buffers < 2 ^ 64 -> ReadFile.total_size buffers = sum_sizes buffers.
Proof.
  intros Hfit.
  rewrite <- (wrap64_small (ReadFile.total_size buffers)).
  - rewrite total_size_wrap. now apply wrap64_small.
  - apply total_size_lt_from. reflexivity.
Qed.

Lemma substr_drop (file : bytes) (pos len n : N) :
  n <= len ->
  drop (N.to_nat n) (substr file pos len) = substr file (pos + n) (len - n).
Proof.
  intros Hle. unfold substr.
  rewrite skipn_firstn_comm, drop_drop.
  f_equal; [lia|]. f_equal. lia.
Qed.

Lemma substr_take (file : bytes) (pos len n : N) :
  n <= len ->
  take (N.to_nat n) (substr file pos len) = substr file pos n.
Proof.
  intros Hle. unfold substr. rewrite take_take. f_equal. lia.
Qed.

Lemma scatter_substr (file : bytes) (buffers : list Range) : forall pos len,
  sum_sizes buffers <= len ->
  pos + len <= N.of_nat (List.length file) ->
  ReadFile.scatter (substr file pos len) buffers = fill_from file pos buffers.
Proof.
  induction buffers as [|[c|n] buffers IH]; intros pos len Hsum Hin;
    cbn [ReadFile.scatter fill_from sum_sizes fold_right range_size] in *;
    [reflexivity| |].
  - fold (sum_sizes buffers) in Hsum.
    pose proof (substr_take file pos len (N.of_nat (List.length c))) as Htake.
    pose proof (substr_drop file pos len (N.of_nat (List.length c))) as Hdrop.
    rewrite Nat2N.id in Htake, Hdrop.
    rewrite Htake, Hdrop by lia.
    f_equal; [|apply IH; lia].
    f_equal. unfold memcpy.
    rewrite substr_length by lia. rewrite Nat2N.id.
    rewrite drop_all. apply app_nil_r.
  - fold (sum_sizes buffers) in Hsum.
    rewrite substr_drop by lia.
    f_equal. apply IH; lia.
Qed.

(** X10.  [preadv(offset, buffers)] on an in-memory file, for destinations
    whose sizes add up to a range inside the file: the destinations are
    filled left to right with the bytes of the file from [offset] on, a
    destination with null data skips its size worth of bytes, and the
    call returns the sum of the sizes.  (The body is in File.cpp; the
    model follows the spec, the property is the comment in File.h.) *)
Theorem preadv_fills_left_to_right
    (self : InMemoryReadFile.t) (offset : uint64_t) (buffers : list Range) :
  sum_sizes buffers < 2 ^ 64 ->
  offset + sum_sizes buffers <= InMemoryReadFile.size self ->
  exists self',
    InMemoryReadFile.preadv offset buffers self
    = (Returned (fill_from (InMemoryReadFile.file_ self) offset buffers,
                 sum_sizes buffers), self')
    /\ InMemoryReadFile.file_ self' = InMemoryReadFile.file_ self.
Proof.
  intros Hfit Hin.
  unfold InMemoryReadFile.preadv, ReadFile.preadv.
  rewrite total_size_exact by exact Hfit.
  destruct (pread_owned_in_range InMemoryReadFile.file_ InMemoryReadFile.pread
              in_memory_pread_in_range offset (sum_sizes buffers) self Hin)
    as (self' & Hp & Hfile).
  exists self'. split; [|exact Hfile].
  rewrite (bind_returned _ _ _ _ _ Hp). unfold ret.
  rewrite scatter_substr; [reflexivity|lia|exact Hin].
Qed.

Lemma preadv_fills_left_to_right_witness :
  exists self',
    InMemoryReadFile.preadv 2 [Mem (replicate 3 x00); Null 4; Mem (replicate 2 x00)]
      (InMemoryReadFile.make hello_world)
    = (Returned ([Mem (list_byte_of_string "llo"); Null 4;
                  Mem (list_byte_of_string "ld")], 9), self')
    /\ InMemoryReadFile.file_ self' = hello_world.
Proof.
  apply (preadv_fills_left_to_right (InMemoryReadFile.make hello_world) 2
           [Mem (replicate 3 x00); Null 4; Mem (replicate 2 x00)]).
  - reflexivity.
  - vm_compute. discriminate.
Defined.

(** ** What the batch read returns *)

Section BatchReadTotal.
Context {T : Type}.
Variable content : T -> bytes.
Variable pread : uint64_t -> uint64_t -> bytes -> M T filled.

Hypothesis pread_in_range : forall offset length buf s,
  offset + length <= N.of_nat (List.length (content s)) ->
  exists s',
    pread offset length buf s
    = (Returned {| buf := memcpy buf (substr (content s) offset length);
                   view_size := length |}, s')
    /\ content s' = content s.

Lemma preadv_visit_total order regions : forall iobufs total s outs total' s',
  ReadFile.preadv_visit pread order regions iobufs total s
  = (Returned (outs, total'), s') ->
  total < 2 ^ 64 ->
  total' = wrap64 (total + visit_requested order regions).
Proof using Type.
  induction order as [|i order IH]; intros iobufs total s outs total' s' Hrun Hfit;
    cbn [ReadFile.preadv_visit visit_requested fold_right] in *.
  - injection Hrun as _ <- _. now rewrite N.add_0_r, wrap64_small.
  - fold (visit_requested order regions).
    destruct (regions !! i) as [region|]; [|now apply (IH _ _ _ _ _ _ Hrun)].
    unfold bind in Hrun.
    destruct (ReadFile.pread_owned pread _ _ s) as [[data|e] s1];
      [|discriminate Hrun].
    rewrite (IH _ _ _ _ _ _ Hrun) by (apply N.mod_lt; discriminate).
    rewrite wrap64_add_l. f_equal. lia.
Qed.

(** X11.  The batch read of regions that lie inside the file returns the
    sum of the region lengths as a 64-bit number; the output at each index
    has exactly the length of its region; and the outputs do not depend on
    what the pre-allocated [iobufs] held, which is why the caller need not
    initialise them.  (The body is in File.cpp; the model follows the
    spec, the property is the comment in File.h.) *)
Theorem preadv_regions_returns_total
    (regions : list Region.t) (iobufs : list IOBuf) (s : T) :
  List.length iobufs = List.length regions ->
  (forall r, r ∈ regions -> in_file (content s) r) ->
  exists s',
    ReadFile.preadv_regions pread regions iobufs s
    = (Returned (region_bytes (content s) <$> regions,
                 wrap64 (sum_lengths regions)), s')
    /\ content s' = content s
    /\ (forall r, r ∈ regions ->
          N.of_nat (List.length (region_bytes (content s) r)) = Region.length r).
Proof using pread_in_range.
  intros Hlen Hin.
  destruct (preadv_visit_all content pread pread_in_range
              regions (seq 0 (List.length regions)) iobufs 0 s)
    as (total & s' & Hrun & Hc); try assumption.
  { intros i Hi. apply elem_of_seq. lia. }
  exists s'. unfold ReadFile.preadv_regions.
  rewrite Hrun.
  rewrite (preadv_visit_total _ _ _ _ _ _ _ _ Hrun) by reflexivity.
  pose proof (CounterFacts.visit_requested_seq [] regions) as Hsum.
  cbn [List.length app] in Hsum. rewrite Hsum, N.add_0_l.
  split; [reflexivity|]. split; [exact Hc|].
  intros r Hr. unfold region_bytes.
  rewrite substr_length by (apply Hin, Hr). lia.
Qed.

End BatchReadTotal.

Lemma preadv_regions_returns_total_witness :
  exists s',
    InMemoryReadFile.preadv_regions
      [Region.mk 6 5; Region.mk 0 5; Region.mk 11 0]
      [hello_world; []; list_byte_of_string "stale"]
      (InMemoryReadFile.make hello_world)
    = (Returned ([list_byte_of_string "world"; list_byte_of_string "hello"; []], 10),
       s').
Proof.
  destruct (preadv_regions_returns_total
              InMemoryReadFile.file_ InMemoryReadFile.pread in_memory_pread_in_range
              [Region.mk 6 5; Region.mk 0 5; Region.mk 11 0]
              [hello_world; []; list_byte_of_string "stale"]
              (InMemoryReadFile.make hello_world))
    as (s' & Hrun & _).
  - reflexivity.
  - intros r Hr. unfold in_file.
    repeat (apply elem_of_cons in Hr as [->|Hr]); try (vm_compute; discriminate).
    now apply not_elem_of_nil in Hr.
  - exists s'. exact Hrun.
Defined.

(** ** The counter is a sum *)

Lemma count_reads_value (lengths : list uint64_t) : forall b,
  ReadFile.bytesRead b < 2 ^ 64 ->
  ReadFile.bytesRead (count_reads lengths b)
  = wrap64 (ReadFile.bytesRead b + sum_N lengths).
Proof.
  unfold count_reads, sum_N, ReadFile.bytesRead.
  induction lengths as [|n lengths IH]; intros b Hb; cbn [fold_left fold_right].
  - now rewrite N.add_0_r, wrap64_small.
  - rewrite IH by (apply N.mod_lt; discriminate).
    cbn [ReadFile.addBytesRead ReadFile.bytesRead_].
    rewrite wrap64_add_l. f_equal. lia.
Qed.

Lemma sum_N_permutation (l1 l2 : list N) : l1 ≡ₚ l2 -> sum_N l1 = sum_N l2.
Proof.
  unfold sum_N.
  induction 1 as [|x l1 l2 _ IH|x y l|l1 l2 l3 _ IH1 _ IH2]; cbn [fold_right];
    [reflexivity | now rewrite IH | lia | congruence].
Qed.

(** X12.  From a counter within 64 bits, [bytesRead()] after any reads is
    the counter before plus the sum of all the lengths passed, modulo
    2^64; so it does not depend on the order in which the reads were
    counted, and it stays within 64 bits. *)
Theorem bytesRead_is_the_sum_of_lengths
    (lengths lengths' : list uint64_t) (b : ReadFile.base) :
  ReadFile.bytesRead b < 2 ^ 64 ->
  lengths ≡ₚ lengths' ->
  ReadFile.bytesRead (count_reads lengths b)
  = wrap64 (ReadFile.bytesRead b + sum_N lengths)
  /\ count_reads lengths' b = count_reads lengths b
  /\ ReadFile.bytesRead (count_reads lengths b) < 2 ^ 64.
Proof.
  intros Hb Hperm.
  pose proof (count_reads_value lengths b Hb) as H1.
  pose proof (count_reads_value lengths' b Hb) as H2.
  rewrite <- (sum_N_permutation _ _ Hperm), <- H1 in H2.
  split; [exact H1|]. split.
  - destruct (count_reads lengths' b) as [n'], (count_reads lengths b) as [n].
    cbn in H2. now rewrite H2.
  - rewrite H1. apply N.mod_lt. discriminate.
Qed.

Lemma bytesRead_is_the_sum_of_lengths_witness :
  ReadFile.bytesRead (count_reads [5; 2 ^ 64 - 1; 7] ReadFile.init) = 11
  /\ count_reads [7; 5; 2 ^ 64 - 1] ReadFile.init
     = count_reads [5; 2 ^ 64 - 1; 7] ReadFile.init.
Proof.
  destruct (bytesRead_is_the_sum_of_lengths
              [5; 2 ^ 64 - 1; 7] [7; 5; 2 ^ 64 - 1] ReadFile.init)
    as (Hsum & Hperm & _).
  - reflexivity.
  - change [7; 5; 2 ^ 64 - 1] with ([7] ++ [5; 2 ^ 64 - 1]).
    change [5; 2 ^ 64 - 1; 7] with ([5; 2 ^ 64 - 1] ++ [7]).
    apply Permutation_app_comm.
  - split; [|exact Hperm]. rewrite Hsum. reflexivity.
Defined.
